(** * ghostunnel: process start-up, log prefix and drain on shutdown

    A shallow embedding of [main.go]: the logger initialisation and [main]
    as a state-and-panic monad over the process state, with the events the
    process emits in order; and the serving phase, in which [main] waits on
    the [sync.WaitGroup] while the tasks it launched interleave, as a
    transition system over the counter, the listener and the live
    connections. The functions [main] calls that are defined outside
    main.go ([buildConfig], [accept], [sigtermHandler], [sigusr1Handler])
    are modelled from the specification and marked as such. *)

From stdpp Require Import base tactics option list strings pretty gmap sets fin_sets.
From Stdlib Require Import ZArith Lia Ascii.

Local Open Scope Z_scope.
Local Open Scope string_scope.

(** ** fmt: the verbs used by [main.go] *)

Module Fmt.

(** [n] blanks. *)
Fixpoint spaces (n : nat) : string :=
  match n with
  | O => ""
  | S n' => String " "%char (spaces n')
  end.

(** A minimum field width, right-justified: [fmt] pads with blanks on the
    left and never truncates. *)
Definition pad_left (width : nat) (s : string) : string :=
  spaces (width - String.length s) +:+ s.

(** [%d] of a Go [int]: decimal digits, a leading minus for negatives. *)
Definition verb_d (z : Z) : string := pretty z.

(** [%5d]. *)
Definition verb_5d (z : Z) : string := pad_left 5 (verb_d z).

(** [fmt.Sprintf("[%5d] ", pid)] (main.go line 44). *)
Definition sprintf_pid_prefix (pid : Z) : string :=
  "[" +:+ verb_5d pid +:+ "] ".

(** A string that does not begin with a blank. *)
Definition no_leading_blank (s : string) : Prop :=
  forall t, s <> String " "%char t.

End Fmt.

(** ** log: the process-wide logger *)

Module Log.

(** Where a logger writes: [os.Stderr] or the system log. *)
Inductive Writer := Stderr | Syslog.

(** A [log.Logger]: its writer and the prefix put in front of every line.
    (The flags [LstdFlags|Lmicroseconds] are the same on both branches of
    [initLogger]; they select the time stamp, which [output] receives.) *)
Record Logger := mkLogger {
  writer : Writer;
  prefix : string
}.

(** [log.New(w, "", flags)]. *)
Definition New (w : Writer) : Logger := mkLogger w "".

(** [l.SetPrefix(p)]. *)
Definition SetPrefix (p : string) (l : Logger) : Logger :=
  mkLogger (writer l) p.

(** One line handed to a writer. *)
Record Line := mkLine {
  line_writer : Writer;
  line_text : string
}.

(** [l.Printf]: the logger's prefix, then the time stamp, then the
    formatted message. *)
Definition output (l : Logger) (stamp msg : string) : Line :=
  mkLine (writer l) (prefix l +:+ stamp +:+ msg).

End Log.

(** ** The TLS policy ([buildConfig] and the connection handler are defined
    outside main.go) *)

Module TLS.

(** The part of an X.509 certificate the policy reads: the
    organizational-unit values of its subject. *)
Record Certificate := mkCert {
  cert_name : string;
  subject_ou : list string
}.

(** A loaded certificate/key pair. *)
Record KeyPair := mkKeyPair {
  kp_chain : string;
  kp_key : string
}.

(** [tls.ClientAuthType]. *)
Inductive ClientAuthType :=
| NoClientCert
| RequestClientCert
| RequireAnyClientCert
| VerifyClientCertIfGiven
| RequireAndVerifyClientCert.

(** The server-side configuration: key pair, client-certificate mode, trust
    pool, and the accepted organizational units read by the check that runs
    after chain verification. *)
Record Config := mkConfig {
  certificate : KeyPair;
  clientAuth : ClientAuthType;
  clientCAs : list Certificate;
  acceptedOUs : list string
}.

(** How a handshake ends on the server side. *)
Inductive HandshakeResult :=
| HandshakeOK
| RejectNoCertificate
| RejectUntrusted
| RejectNoAcceptedOU.

(** Modelled from the spec: the verification predicate over the allow-list
    (spec 4.2, step 3): some certificate of the presented chain carries an
    organizational-unit value present in the accepted set. *)
Definition cert_has_accepted_ou (accepted : list string) (c : Certificate) : bool :=
  existsb (fun ou => bool_decide (ou ∈ accepted)) (subject_ou c).

(** Modelled from the spec: the same predicate over a chain (spec 4.2,
    step 3: at least one certificate in the presented chain). *)
Definition chain_has_accepted_ou (accepted : list string) (chain : list Certificate) : bool :=
  existsb (cert_has_accepted_ou accepted) chain.

Section Handshake.

(** Chain verification against a trust pool is crypto/x509's; the policy
    only consumes its verdict. *)
Variable chains_to : list Certificate -> list Certificate -> bool.

(** Does this mode demand a certificate, and does it verify one it gets? *)
Definition demands_cert (m : ClientAuthType) : bool :=
  match m with
  | RequireAnyClientCert | RequireAndVerifyClientCert => true
  | _ => false
  end.

Definition verifies_cert (m : ClientAuthType) : bool :=
  match m with
  | VerifyClientCertIfGiven | RequireAndVerifyClientCert => true
  | _ => false
  end.

(** Modelled from the spec: the server side of one handshake under a
    configuration (spec 4.2, step 3; spec 7, per-handshake errors): a missing
    certificate and an untrusted chain are rejected by the mode; after chain
    verification the organizational-unit check decides. *)
Definition handshake (cfg : Config) (presented : option (list Certificate)) : HandshakeResult :=
  match presented with
  | None => if demands_cert (clientAuth cfg) then RejectNoCertificate else HandshakeOK
  | Some chain =>
      if verifies_cert (clientAuth cfg) && negb (chains_to (clientCAs cfg) chain)
      then RejectUntrusted
      else if chain_has_accepted_ou (acceptedOUs cfg) chain
           then HandshakeOK
           else RejectNoAcceptedOU
  end.

(** What one connection's task does, in order. *)
Inductive ConnStep :=
| Handshake (r : HandshakeResult)
| DialBackend (reached : bool)
| Relay
| CloseClient
| CloseBackend
| CounterDone.

(** Modelled from the spec: the per-connection task (spec 4.5, steps 2-4):
    handshake inline; on failure close and decrement; then dial the backend,
    on failure close and decrement; then relay, close both ends and
    decrement. *)
Definition handle (cfg : Config) (presented : option (list Certificate))
    (backend_up : bool) : list ConnStep :=
  match handshake cfg presented with
  | HandshakeOK =>
      if backend_up
      then [Handshake HandshakeOK; DialBackend true; Relay; CloseClient; CloseBackend; CounterDone]
      else [Handshake HandshakeOK; DialBackend false; CloseClient; CounterDone]
  | r => [Handshake r; CloseClient; CounterDone]
  end.

End Handshake.

End TLS.

(** ** main.go *)

Module Main.

Import TLS.

(** A [*net.TCPAddr] as produced by the flag parser. *)
Record TCPAddr := mkTCPAddr {
  addr_host : string;
  addr_port : Z
}.

(** What [%s] prints for an address: host, colon, port. *)
Definition TCPAddr_String (a : TCPAddr) : string :=
  addr_host a +:+ ":" +:+ pretty (addr_port a).

(** The start-up flags (main.go lines 17-29), after [kingpin.Parse]. *)
Record Flags := mkFlags {
  listenAddress : TCPAddr;
  forwardAddress : TCPAddr;
  clientNames : list string;
  privateKeyPath : string;
  certChainPath : string;
  caBundlePath : string;
  useSyslog : bool;
  gracefulChild : bool
}.

(** The errors start-up can die of. *)
Inductive Err :=
| SyslogError
| BindError
| KeyMaterialError
| TrustStoreError
| NilLogger.

(** What the process finds around it: the operating system's answers, and
    the helpers of the repository and of its libraries that [main] calls
    and that live outside main.go. *)
Record Host := mkHost {
  getpid : Z;
  getppid : Z;
  syslog_reachable : bool;
  bind_granted : string -> string -> bool;
  read_file : string -> option string;
  clock : nat -> string;
  decodeAddress : TCPAddr -> string * string;
  parse_key_pair : string -> string -> option KeyPair;
  parse_ca_bundle : string -> option (list Certificate)
}.

Inductive Signal := SIGTERM | SIGUSR1.

(** The three tasks [main] launches with [go]. *)
Inductive Task := TaskAccept | TaskSigterm | TaskSigusr1.

(** What the process does that is visible from outside, in order. *)
Inductive Event :=
| EvListen (network address : string)
| EvBuildConfig
| EvTLSListener
| EvLog (l : Log.Line)
| EvGo (t : Task)
| EvKill (pid : Z) (s : Signal).

(** The process state [main] works on: the global [logger], the
    [sync.WaitGroup] counter, the capacity of the [stopper] channel once it
    is made, and the events so far (oldest first). *)
Record Proc := mkProc {
  logger : option Log.Logger;
  wg : Z;
  stopper_cap : option nat;
  trace : list Event
}.

Definition boot : Proc := mkProc None 0 None [].

(** A call either returns or panics; a panic unwinds [main]. *)
Inductive Outcome (A : Type) :=
| Returned (a : A)
| Panicked (e : Err).
Arguments Returned {A} a.
Arguments Panicked {A} e.

Definition M (A : Type) : Type := Proc -> Proc * Outcome A.

Definition ret {A} (a : A) : M A := fun p => (p, Returned a).

Definition bind {A B} (m : M A) (f : A -> M B) : M B := fun p =>
  match m p with
  | (p', Returned a) => f a p'
  | (p', Panicked e) => (p', Panicked e)
  end.

Notation "'call' x <- m ; k" := (bind m (fun x => k))
  (at level 10, x name, m at level 100, k at level 200).
Notation "m >> k" := (bind m (fun _ => k))
  (at level 65, right associativity).

Definition panic {A} (e : Err) : M A := fun p => (p, Panicked e).

Definition emit (e : Event) : M unit := fun p =>
  (mkProc (logger p) (wg p) (stopper_cap p) (trace p ++ [e]), Returned tt).

Definition set_logger (l : option Log.Logger) : M unit := fun p =>
  (mkProc l (wg p) (stopper_cap p) (trace p), Returned tt).

Definition get_logger : M (option Log.Logger) := fun p => (p, Returned (logger p)).

Definition is_log (e : Event) : bool :=
  match e with
  | EvLog _ => true
  | _ => false
  end.

(** How many lines have been logged so far: the index of the next time
    stamp. *)
Definition count_logs (t : list Event) : nat := length (List.filter is_log t).

(** [wg.Add(n)]. *)
Definition wg_Add (n : Z) : M unit := fun p =>
  (mkProc (logger p) (wg p + n) (stopper_cap p) (trace p), Returned tt).

(** [make(chan bool, n)]. *)
Definition make_stopper (n : nat) : M unit := fun p =>
  (mkProc (logger p) (wg p) (Some n) (trace p), Returned tt).

(** Process exit status: 0 when [main] returns, 2 when it dies of a panic. *)
Definition exit_status {A} (o : Outcome A) : Z :=
  match o with
  | Returned _ => 0
  | Panicked _ => 2
  end.

Section Program.

Variable flags : Flags.
Variable host : Host.

(** [panicOnError] (main.go lines 48-52). *)
Definition panicOnError (err : option Err) : M unit :=
  match err with
  | Some e => panic e
  | None => ret tt
  end.

(** [syslog.NewLogger]: a logger on the system log, or an error. *)
Definition syslog_NewLogger : option Log.Logger * option Err :=
  if syslog_reachable host
  then (Some (Log.New Log.Syslog), None)
  else (None, Some SyslogError).

(** [logger.SetPrefix] on the global logger. *)
Definition logger_SetPrefix (p : string) : M unit :=
  call l <- get_logger;
  match l with
  | Some l' => set_logger (Some (Log.SetPrefix p l'))
  | None => panic NilLogger
  end.

(** [logger.Printf] on the global logger. *)
Definition logger_Printf (msg : string) : M unit :=
  call l <- get_logger;
  match l with
  | Some l' => fun p => emit (EvLog (Log.output l' (clock host (count_logs (trace p))) msg)) p
  | None => panic NilLogger
  end.

(** [initLogger] (main.go lines 34-45). *)
Definition initLogger : M unit :=
  (if useSyslog flags
   then
     let '(l, err) := syslog_NewLogger in
     set_logger l >>
     panicOnError err
   else
     set_logger (Some (Log.New Log.Stderr))) >>
  logger_SetPrefix (Fmt.sprintf_pid_prefix (getpid host)).

(** [reuseport.NewReusablePortListener]: the listening socket is opened
    here, or the bind is refused. *)
Definition NewReusablePortListener (network address : string) : M (option Err) :=
  if bind_granted host network address
  then emit (EvListen network address) >> ret None
  else ret (Some BindError).

(** Modelled from the spec: [buildConfig], which main.go calls and does
    not define, spec 4.2: load and parse the key pair, failing with [KeyMaterialError]
    on unreadable or malformed content; load and parse the CA bundle into a
    trust pool, failing with [TrustStoreError] if empty or malformed;
    construct the server-side configuration that requires a client
    certificate, verifies it against the pool and checks the accepted
    organizational units. Its call site in [main] receives one value, so a
    failure cannot be returned: it unwinds the process. *)
Definition buildConfig : Outcome Config :=
  match read_file host (certChainPath flags), read_file host (privateKeyPath flags) with
  | Some chain, Some key =>
      match parse_key_pair host chain key with
      | Some kp =>
          match read_file host (caBundlePath flags) ≫= parse_ca_bundle host with
          | Some (ca :: pool) =>
              Returned (mkConfig kp RequireAndVerifyClientCert (ca :: pool) (clientNames flags))
          | _ => Panicked TrustStoreError
          end
      | None => Panicked KeyMaterialError
      end
  | _, _ => Panicked KeyMaterialError
  end.

Definition call_buildConfig : M Config :=
  emit EvBuildConfig >>
  fun p => (p, buildConfig).

(** [tls.NewListener]: wraps the raw listener; it cannot fail. *)
Definition tls_NewListener (cfg : Config) : M unit := emit EvTLSListener.

(** [main], lines 55-92: everything before [wg.Wait()]. (Lines 55-56 set
    the number of threads and parse the flags; the flags are given as
    parsed.) *)
Definition main_startup : M unit :=
  initLogger >>
  let '(network, address) := decodeAddress host (listenAddress flags) in
  call err <- NewReusablePortListener network address;
  panicOnError err >>
  call cfg <- call_buildConfig;
  tls_NewListener cfg >>
  logger_Printf ("listening on " +:+ TCPAddr_String (listenAddress flags)) >>
  wg_Add 1 >>
  make_stopper 1 >>
  emit (EvGo TaskAccept) >>
  emit (EvGo TaskSigterm) >>
  emit (EvGo TaskSigusr1) >>
  (if gracefulChild flags
   then
     let parent := getppid host in
     logger_Printf ("sending SIGTERM to parent PID " +:+ Fmt.verb_d parent) >>
     emit (EvKill parent SIGTERM)
   else ret tt) >>
  logger_Printf "startup completed, waiting for connections".

(** [main], line 96: what follows the return of [wg.Wait()]. *)
Definition main_shutdown : M unit :=
  logger_Printf "all connections closed, shutting down".

(** [main] (main.go lines 54-97). [wait] is what the call [wg.Wait()] on
    line 94 does as [main] sees it: it returns once the serving phase has
    brought the counter to zero. *)
Definition main (wait : M unit) : M unit :=
  main_startup >>
  wait >>
  main_shutdown.

End Program.

(** The lines a process has logged, oldest first. *)
Definition logged (p : Proc) : list Log.Line :=
  omap (fun e => match e with EvLog l => Some l | _ => None end) (trace p).

(** What a process has done besides logging, oldest first. *)
Definition actions (p : Proc) : list Event :=
  List.filter (fun e => negb (is_log e)) (trace p).

(** Running [main] symbolically: split on every answer of the host that
    [main] branches on, then evaluate the monad and the state updates (and
    nothing else: texts and numbers stay as written). *)
Ltac startup_eval :=
  cbv beta iota zeta delta
    [main main_shutdown main_startup initLogger
     NewReusablePortListener call_buildConfig tls_NewListener logger_Printf
     logger_SetPrefix syslog_NewLogger panicOnError wg_Add make_stopper
     emit set_logger get_logger panic bind ret boot
     logger wg Main.stopper_cap trace
     Log.New Log.SetPrefix Log.output Log.writer Log.prefix
     count_logs is_log List.filter length app logged omap list_omap
     actions negb].

Ltac startup_cases flags host :=
  unfold main, main_startup, initLogger, NewReusablePortListener,
    call_buildConfig, syslog_NewLogger;
  destruct (useSyslog flags) eqn:Hsys;
  destruct (syslog_reachable host) eqn:Hreach;
  destruct (decodeAddress host (listenAddress flags)) as [network address] eqn:Hdec;
  destruct (bind_granted host network address) eqn:Hbind;
  destruct (buildConfig flags host) as [cfg|err] eqn:Hcfg;
  destruct (gracefulChild flags) eqn:Hgrace;
  startup_eval.

(** Membership in, and cuts of, a trace that is written out. *)
Ltac in_trace H :=
  repeat (apply elem_of_cons in H as [H|H];
          [try discriminate H; try (injection H as ? ?) | ]);
  try (apply elem_of_nil in H; destruct H).

Ltac cut_trace pre E :=
  repeat (destruct pre as [|? pre]; cbn in E;
          [try discriminate E | injection E as ? E]);
  try (destruct pre; discriminate E).

End Main.

(** ** The serving phase: [wg.Wait()] against the launched tasks *)

Module Lifecycle.

(** The lifecycle states of spec 3. *)
Inductive Phase := STARTING | LISTENING | RELOADING | DRAINING | TERMINATED.

(** Where the main task stands relative to [wg.Wait()] (main.go line 94):
    still on lines 81-92, blocked inside the call, returned from it, or
    returned from [main]. *)
Inductive MainTask := MainRunning | MainBlocked | MainReleased | MainReturned.

(** The accept loop: running, ended by the stop notification, or ended by an
    accept error that no closure caused. *)
Inductive Acceptor := AcceptRunning | AcceptStopped | AcceptFailed.

(** The process in its serving phase: lifecycle state, where [main] is,
    the [sync.WaitGroup] counter, the accept loop, the listener and how
    often it has been closed, the [stopper] channel (contents and capacity),
    the connections accepted and not yet finished, and the replacement
    processes spawned. *)
Record State := mkState {
  phase : Phase;
  mainTask : MainTask;
  counter : Z;
  acceptor : Acceptor;
  listener_open : bool;
  closes : nat;
  stopper : list bool;
  stopper_cap : nat;
  live : gset nat;
  children : nat
}.

#[export] Instance Phase_eq_dec : EqDecision Phase.
Proof. solve_decision. Defined.
#[export] Instance MainTask_eq_dec : EqDecision MainTask.
Proof. solve_decision. Defined.
#[export] Instance Acceptor_eq_dec : EqDecision Acceptor.
Proof. solve_decision. Defined.

(** The state in which [main] leaves the process once the accept loop is
    launched: the counter as [main] set it (line 74), the [stopper] channel
    as [main] made it (line 78), the listener open, nobody connected. *)
Definition init (p : Main.Proc) : State :=
  mkState LISTENING MainRunning (Main.wg p) AcceptRunning true 0 []
          (default 0%nat (Main.stopper_cap p)) ∅ 0.

(** What can happen to the process. *)
Inductive Label :=
| SigTerm
| SigReload
| Accept (c : nat)
| ConnDone (c : nat)
| AcceptStop
| AcceptFatal
| MainWait
| MainReturn.

(** [wg.Done()]: one unit less; the task blocked in [wg.Wait()] is released
    when the counter reaches zero. (Below zero [sync.WaitGroup] panics; the
    invariant [inv] keeps the counter from getting there.) *)
Definition wg_Done (s : State) : State :=
  let n := counter s - 1 in
  mkState (phase s)
          (if decide (n = 0 ∧ mainTask s = MainBlocked) then MainReleased else mainTask s)
          n (acceptor s) (listener_open s) (closes s) (stopper s) (stopper_cap s)
          (live s) (children s).

(** [wg.Wait()] (main.go line 94): returns at once on a zero counter,
    blocks otherwise. *)
Definition wg_Wait (s : State) : State :=
  mkState (phase s)
          (if decide (counter s = 0) then MainReleased else MainBlocked)
          (counter s) (acceptor s) (listener_open s) (closes s) (stopper s)
          (stopper_cap s) (live s) (children s).

(** Modelled from the spec: the termination signal ([sigtermHandler] is
    defined outside main.go), spec 4.4: from [LISTENING] or [RELOADING]
    close the listener, stop accepting and enter [DRAINING]; a further
    termination signal while [DRAINING] is a no-op. The handler is given
    the listener and the [stopper] channel (main.go line 81), the channel
    through which signal handlers tell the accept loop to shut down (lines
    76-78); it is not given the [sync.WaitGroup]. *)
Definition on_sigterm (s : State) : option State :=
  match phase s with
  | LISTENING | RELOADING =>
      Some (mkState DRAINING (mainTask s) (counter s) (acceptor s) false
                    (S (closes s)) (stopper s ++ [true]) (stopper_cap s)
                    (live s) (children s))
  | DRAINING => Some s
  | STARTING | TERMINATED => None
  end.

(** Modelled from the spec: the reload signal ([sigusr1Handler] is defined
    outside main.go), spec 4.4: spawn a replacement process and carry on; a
    second reload signal spawns a second child. *)
Definition on_sigreload (s : State) : option State :=
  match phase s with
  | LISTENING | RELOADING =>
      Some (mkState RELOADING (mainTask s) (counter s) (acceptor s)
                    (listener_open s) (closes s) (stopper s) (stopper_cap s)
                    (live s) (S (children s)))
  | _ => None
  end.

(** Modelled from the spec: the accept loop takes a connection ([accept]
    is defined outside main.go), spec 4.5, step 1: possible only on an open
    listener; the counter is incremented. *)
Definition on_accept (c : nat) (s : State) : option State :=
  if decide (acceptor s = AcceptRunning ∧ listener_open s = true ∧ c ∉ live s)
  then Some (mkState (phase s) (mainTask s) (counter s + 1) (acceptor s)
                     (listener_open s) (closes s) (stopper s) (stopper_cap s)
                     ({[c]} ∪ live s) (children s))
  else None.

(** Modelled from the spec: a connection's task ends (spec 4.5, steps 2-4:
    failed handshake, unreachable backend, or relay finished); the counter
    is decremented. *)
Definition on_conn_done (c : nat) (s : State) : option State :=
  if decide (c ∈ live s)
  then Some (wg_Done (mkState (phase s) (mainTask s) (counter s) (acceptor s)
                              (listener_open s) (closes s) (stopper s)
                              (stopper_cap s) (live s ∖ {[c]}) (children s)))
  else None.

(** Modelled from the spec: the accept loop ends cleanly (spec 4.5): the
    accept call fails on the closed listener and the loop finds the stop
    notification. The unit [main] added before launching the loop (line 74)
    travels with [wg] into [accept], the only task that receives it (line
    80), and is given back when the loop ends. *)
Definition on_accept_stop (s : State) : option State :=
  match acceptor s, listener_open s, stopper s with
  | AcceptRunning, false, true :: rest =>
      Some (wg_Done (mkState (phase s) (mainTask s) (counter s) AcceptStopped
                             false (closes s) rest (stopper_cap s)
                             (live s) (children s)))
  | _, _, _ => None
  end.

(** Modelled from the spec: an accept error that no closure caused (spec
    4.5 and 7): logged, the loop exits; the process can still drain and
    exit, so the loop's unit is given back here too. *)
Definition on_accept_fatal (s : State) : option State :=
  match acceptor s, listener_open s with
  | AcceptRunning, true =>
      Some (wg_Done (mkState (phase s) (mainTask s) (counter s) AcceptFailed
                             true (closes s) (stopper s) (stopper_cap s)
                             (live s) (children s)))
  | _, _ => None
  end.

(** [main] reaches line 94. *)
Definition on_main_wait (s : State) : option State :=
  match mainTask s with
  | MainRunning => Some (wg_Wait s)
  | _ => None
  end.

(** [main] logs (line 96) and returns: the process ends with status 0. *)
Definition on_main_return (s : State) : option State :=
  match mainTask s with
  | MainReleased =>
      Some (mkState TERMINATED MainReturned (counter s) (acceptor s)
                    (listener_open s) (closes s) (stopper s) (stopper_cap s)
                    (live s) (children s))
  | _ => None
  end.

(** One step. Nothing happens in a process that has ended. *)
Definition step (s : State) (l : Label) : option State :=
  if decide (mainTask s = MainReturned) then None else
  match l with
  | SigTerm => on_sigterm s
  | SigReload => on_sigreload s
  | Accept c => on_accept c s
  | ConnDone c => on_conn_done c s
  | AcceptStop => on_accept_stop s
  | AcceptFatal => on_accept_fatal s
  | MainWait => on_main_wait s
  | MainReturn => on_main_return s
  end.

(** A run: the labels in the order they happen. *)
Fixpoint run (s : State) (ls : list Label) : option State :=
  match ls with
  | [] => Some s
  | l :: ls' =>
      match step s l with
      | Some s' => run s' ls'
      | None => None
      end
  end.

(** The exit status, once there is one. *)
Definition exit_code (s : State) : option Z :=
  match mainTask s with
  | MainReturned => Some 0
  | _ => None
  end.

Definition is_conn_done (l : Label) : bool :=
  match l with
  | ConnDone _ => true
  | _ => false
  end.

(** The units of the counter held on behalf of the accept loop. *)
Definition acceptor_units (a : Acceptor) : Z :=
  match a with
  | AcceptRunning => 1
  | _ => 0
  end.

(** What holds of every state of the serving phase. *)
Record inv (s : State) : Prop := mkInv {
  inv_counter : counter s = Z.of_nat (size (live s)) + acceptor_units (acceptor s);
  inv_blocked : mainTask s = MainBlocked -> counter s <> 0;
  inv_released : mainTask s = MainReleased \/ mainTask s = MainReturned -> counter s = 0;
  inv_closes : closes s = if listener_open s then 0%nat else 1%nat;
  inv_stopper :
    stopper s = match listener_open s, acceptor s with
                | false, AcceptRunning | false, AcceptFailed => [true]
                | _, _ => []
                end;
  inv_cap : stopper_cap s = 1%nat;
  inv_stopped : acceptor s = AcceptStopped -> listener_open s = false;
  inv_terminated : phase s = TERMINATED <-> mainTask s = MainReturned;
  inv_draining : phase s = DRAINING -> listener_open s = false;
  inv_closed : listener_open s = false -> phase s = DRAINING \/ phase s = TERMINATED;
  inv_started : phase s <> STARTING
}.

(** Case analysis of one step on a state given by its fields. *)
Ltac step_inversion H :=
  unfold step in H; cbn in H; case_decide; [discriminate H|];
  match type of H with
  | match ?l with _ => _ end = _ => destruct l
  end; cbn in H;
  unfold on_sigterm, on_sigreload, on_accept, on_conn_done, on_accept_stop,
    on_accept_fatal, on_main_wait, on_main_return, wg_Done, wg_Wait in H;
  cbn in H;
  repeat case_decide; repeat case_match; try discriminate H;
  injection H as <-; subst; cbn in *;
  repeat match goal with Hand : _ ∧ _ |- _ => destruct Hand end; subst.

End Lifecycle.

(** ** The whole process: how it ends *)

Module Process.

Import Main Lifecycle.

(** The process ends with status [z]: start-up dies of a panic; or start-up
    completes, the serving phase runs until [wg.Wait()] has returned, and
    [main] logs its last line and returns (or dies logging it). *)
Inductive exits (flags : Flags) (host : Host) : Z -> Prop :=
| exits_startup_panic p e :
    main_startup flags host boot = (p, Panicked e) ->
    exits flags host (exit_status (@Panicked unit e))
| exits_main_returns p ls s p' :
    main_startup flags host boot = (p, Returned tt) ->
    run (init p) ls = Some s ->
    exit_code s = Some 0 ->
    main_shutdown host p = (p', Returned tt) ->
    exits flags host (exit_status (Returned tt))
| exits_shutdown_panic p ls s p' e :
    main_startup flags host boot = (p, Returned tt) ->
    run (init p) ls = Some s ->
    mainTask s = MainReleased ->
    main_shutdown host p = (p', Panicked e) ->
    exits flags host (exit_status (@Panicked unit e)).

End Process.

(** ** The scenario of spec 8 as concrete inputs *)

Module Scenario.

Import TLS Main Lifecycle.

Definition flags_ops (graceful : bool) : Flags :=
  mkFlags (mkTCPAddr "127.0.0.1" 9443) (mkTCPAddr "127.0.0.1" 8080)
          ["ops"] "server.key" "server.crt" "ca.crt" false graceful.

Definition ca_cert : Certificate := mkCert "ca" [].
Definition ops_cert : Certificate := mkCert "client-ops" ["ops"].
Definition guest_cert : Certificate := mkCert "client-guest" ["guest"].

(** Files are their own names; every one of them parses. *)
Definition files_all (path : string) : option string := Some path.

(** The private key cannot be read. *)
Definition files_no_key (path : string) : option string :=
  if decide (path = "server.key") then None else Some path.

Definition host_with (files : string -> option string) : Host :=
  mkHost 4242 17 true (fun _ _ => true) files
         (fun n => "t" +:+ pretty n +:+ " ")
         (fun a => ("tcp4", TCPAddr_String a))
         (fun chain key => Some (mkKeyPair chain key))
         (fun _ => Some [ca_cert]).

(** A chain verifies when the pool is the scenario's. *)
Definition chains_to_ca (pool chain : list Certificate) : bool :=
  bool_decide (cert_name <$> pool = ["ca"]).

(** The process once start-up has completed. *)
Definition proc_listening : Proc :=
  (main_startup (flags_ops false) (host_with files_all) boot).1.

(** Two connections are taken in and [main] reaches its wait; then the
    termination signal arrives, and the connections finish in the order
    opposite to their arrival, the accept loop stopping in between. *)
Definition before_signal : list Label := [Accept 1; MainWait; Accept 2].

Definition after_signal : list Label :=
  [ConnDone 2; AcceptStop; ConnDone 1; MainReturn].

Definition at_signal : State :=
  default (init proc_listening) (run (init proc_listening) before_signal).

Definition at_draining : State :=
  default at_signal (step at_signal SigTerm).

Definition at_exit : State :=
  default at_signal (run at_signal (SigTerm :: after_signal)).

End Scenario.

(** * Properties *)

(** ** The pid prefix *)

Module FmtFacts.

Import Fmt.

Lemma sapp_nil (c : string) : "" +:+ c = c.
Proof. reflexivity. Qed.

Lemma sapp_cons (x : ascii) (a c : string) :
  String x a +:+ c = String x (a +:+ c).
Proof. reflexivity. Qed.

Lemma string_length_app (a b : string) :
  String.length (a +:+ b) = (String.length a + String.length b)%nat.
Proof.
  induction a as [|c a IH]; rewrite ?sapp_nil, ?sapp_cons; cbn; [done | by rewrite IH].
Qed.

Lemma spaces_length n : String.length (spaces n) = n.
Proof. induction n as [|n IH]; cbn; [done | by rewrite IH]. Qed.

(** Cancelling a common tail. *)
Lemma app_inj_tail (a b c : string) : a +:+ c = b +:+ c -> a = b.
Proof.
  revert b. induction a as [|x a IH]; intros [|y b];
    rewrite ?sapp_nil, ?sapp_cons; intros E.
  - done.
  - apply (f_equal String.length) in E. cbn in E.
    rewrite string_length_app in E. lia.
  - apply (f_equal String.length) in E. cbn in E.
    rewrite string_length_app in E. lia.
  - injection E as -> E. f_equal. eauto.
Qed.

(** Digits are pushed in front of the accumulator, and no digit is a blank. *)
Lemma pretty_N_go_no_blank x s :
  no_leading_blank s -> no_leading_blank (pretty_N_go x s).
Proof.
  revert s. induction (N.lt_wf_0 x) as [x _ IH]; intros s Hs.
  destruct (decide (x = 0)%N) as [->|Hx].
  - by rewrite pretty_N_go_0.
  - rewrite pretty_N_go_step by lia. apply IH.
    + apply N.div_lt; lia.
    + intros t. unfold pretty_N_char. by repeat case_match.
Qed.

Lemma verb_d_no_blank (z : Z) : no_leading_blank (verb_d z).
Proof.
  unfold verb_d.
  destruct z as [|x|x];
    unfold pretty, pretty_Z, pretty, pretty_positive, pretty, pretty_N.
  - intros t; discriminate.
  - case_decide; [intros t; discriminate|].
    apply pretty_N_go_no_blank. intros t; discriminate.
  - intros t; discriminate.
Qed.

(** Padding can be told from what it pads. *)
Lemma spaces_app_inj n m s t :
  no_leading_blank s -> no_leading_blank t ->
  spaces n +:+ s = spaces m +:+ t -> s = t.
Proof.
  revert m. induction n as [|n IH]; intros [|m] Hs Ht; cbn [spaces];
    rewrite ?sapp_nil, ?sapp_cons; intros E.
  - done.
  - by destruct (Hs _ E).
  - by destruct (Ht _ (eq_sym E)).
  - injection E as E. eauto.
Qed.

(** Two processes with different ids get different prefixes. *)
Lemma sprintf_pid_prefix_inj x y :
  sprintf_pid_prefix x = sprintf_pid_prefix y -> x = y.
Proof.
  unfold sprintf_pid_prefix, verb_5d, pad_left. intros E.
  injection E as E. rewrite !sapp_nil in E. apply app_inj_tail in E.
  apply spaces_app_inj in E; auto using verb_d_no_blank.
  by apply (inj pretty).
Qed.

(** [%5d] yields at least five characters and never cuts digits. *)
Lemma verb_5d_length z :
  String.length (verb_5d z) = Nat.max 5 (String.length (verb_d z)).
Proof.
  unfold verb_5d, pad_left. rewrite string_length_app, spaces_length. lia.
Qed.

(** The printer only ever adds characters in front of its accumulator. *)
Lemma pretty_N_go_length_ge x s :
  (String.length s <= String.length (pretty_N_go x s))%nat.
Proof.
  revert s. induction (N.lt_wf_0 x) as [x _ IH]; intros s.
  destruct (decide (x = 0)%N) as [->|Hx].
  - by rewrite pretty_N_go_0.
  - rewrite pretty_N_go_step by lia.
    etrans; [|apply IH; apply N.div_lt; lia]. cbn. lia.
Qed.

(** A number below [10^k] prints in at most [k] digits. *)
Lemma pretty_N_go_length_le k : forall x s,
  (x < 10 ^ N.of_nat k)%N ->
  (String.length (pretty_N_go x s) <= String.length s + k)%nat.
Proof.
  induction k as [|k IH]; intros x s Hlt.
  - assert (x = 0%N) as -> by (cbn in Hlt; lia). rewrite pretty_N_go_0. lia.
  - destruct (decide (x = 0)%N) as [->|Hx]; [rewrite pretty_N_go_0; lia|].
    rewrite pretty_N_go_step by lia.
    etrans; [apply IH|cbn; lia].
    rewrite Nat2N.inj_succ, N.pow_succ_r' in Hlt.
    apply N.Div0.div_lt_upper_bound. lia.
Qed.

(** A number from [10^k] on prints in more than [k] digits. *)
Lemma pretty_N_go_length_gt k : forall x s,
  (10 ^ N.of_nat k <= x)%N ->
  (String.length s + S k <= String.length (pretty_N_go x s))%nat.
Proof.
  induction k as [|k IH]; intros x s Hge.
  - cbn in Hge. rewrite pretty_N_go_step by lia.
    etrans; [|apply pretty_N_go_length_ge]. cbn. lia.
  - rewrite Nat2N.inj_succ, N.pow_succ_r' in Hge.
    assert (0 < 10 ^ N.of_nat k)%N by (apply N.neq_0_lt_0, N.pow_nonzero; lia).
    rewrite pretty_N_go_step by lia.
    etrans; [|apply IH]; [cbn; lia|].
    apply N.div_le_lower_bound; lia.
Qed.

(** A positive number prints in at most [k] characters exactly when it is
    below [10^k]. *)
Lemma pretty_pos_length_le (p : positive) (k : nat) :
  (String.length (pretty (Npos p)) <= k)%nat <-> (Npos p < 10 ^ N.of_nat k)%N.
Proof.
  unfold pretty, pretty_N. rewrite decide_False by done. split.
  - intros Hlen. apply N.lt_nge. intros Hge.
    pose proof (pretty_N_go_length_gt k _ "" Hge) as Hgt.
    cbn [String.length] in Hgt. lia.
  - intros Hlt. pose proof (pretty_N_go_length_le k _ "" Hlt) as Hle.
    cbn [String.length] in Hle. lia.
Qed.

(** [%d] needs at most five characters, sign included, exactly for the
    numbers from -9999 to 99999. *)
Lemma verb_d_fits_five (z : Z) :
  (String.length (verb_d z) <= 5)%nat <-> -10000 < z < 100000.
Proof.
  unfold verb_d. destruct z as [|p|p].
  - cbn. split; intros; lia.
  - change (pretty (Z.pos p)) with (pretty (Npos p)).
    rewrite pretty_pos_length_le. cbn. lia.
  - change (pretty (Z.neg p)) with ("-" +:+ pretty (Npos p)).
    rewrite sapp_cons, sapp_nil. cbn [String.length].
    transitivity (String.length (pretty (Npos p)) <= 4)%nat; [lia|].
    rewrite pretty_pos_length_le. cbn. lia.
Qed.

(** X5. The prefix is three characters longer than the padded number. It
    has the fixed width of eight characters exactly for the ids from -9999
    to 99999; from 100000 on nothing is padded and nothing is cut: the
    prefix is the bracketed number itself, and longer than eight. *)
Theorem pid_prefix_width (pid : Z) :
  String.length (sprintf_pid_prefix pid)
  = (3 + Nat.max 5 (String.length (verb_d pid)))%nat
  /\ (String.length (sprintf_pid_prefix pid) = 8%nat <-> -10000 < pid < 100000)
  /\ (100000 <= pid -> sprintf_pid_prefix pid = "[" +:+ verb_d pid +:+ "] ").
Proof.
  assert (Hlen : String.length (sprintf_pid_prefix pid)
                 = (3 + Nat.max 5 (String.length (verb_d pid)))%nat).
  { unfold sprintf_pid_prefix. rewrite sapp_cons, sapp_nil. cbn [String.length].
    rewrite string_length_app, verb_5d_length. cbn. lia. }
  split; [done|]. split.
  - rewrite Hlen, <- verb_d_fits_five. lia.
  - intros Hbig. unfold sprintf_pid_prefix, verb_5d, pad_left.
    assert (Hlong : ~ (String.length (verb_d pid) <= 5)%nat)
      by (rewrite verb_d_fits_five; lia).
    replace (5 - String.length (verb_d pid))%nat with 0%nat by lia. done.
Qed.

End FmtFacts.

(** ** Start-up *)

Module MainFacts.

Import TLS Main Scenario.

(** An unreadable key file makes [buildConfig] fail. *)
Lemma buildConfig_unreadable_key flags host :
  read_file host (privateKeyPath flags) = None ->
  buildConfig flags host = Panicked KeyMaterialError.
Proof.
  intros Hkey. unfold buildConfig. rewrite Hkey.
  by destruct (read_file host (certChainPath flags)).
Qed.

(** What a completed start-up leaves behind. *)
Lemma startup_returned flags host p :
  main_startup flags host boot = (p, Returned tt) ->
  wg p = 1 /\ Main.stopper_cap p = Some 1%nat
  /\ logger p = Some (Log.mkLogger (if useSyslog flags then Log.Syslog else Log.Stderr)
                                   (Fmt.sprintf_pid_prefix (getpid host)))
  /\ EvGo TaskAccept ∈ trace p.
Proof.
  startup_cases flags host; intros E; try discriminate E; injection E as <-.
  all: split; [reflexivity|]; split; [reflexivity|]; split; [reflexivity|].
  all: cbn [trace]; set_solver.
Qed.

(** Once the logger is set, the last line of [main] cannot fail. *)
Lemma shutdown_returns host p lg :
  logger p = Some lg -> exists p', main_shutdown host p = (p', Returned tt).
Proof.
  intros Hlg. unfold main_shutdown, logger_Printf, bind, get_logger.
  rewrite Hlg. unfold emit. eauto.
Qed.

(** C10. Every line [main] logs, on stderr and on the system log alike,
    starts with the prefix made from the process id by the format
    ["[%5d] "]; so does every line written later through the global logger;
    the number is padded to five characters and never cut; and the prefixes
    of two different process ids differ. *)
Theorem log_lines_carry_pid_prefix flags host :
  let pfx := Fmt.sprintf_pid_prefix (getpid host) in
  let '(p, o) := main flags host (ret tt) boot in
  (forall l, l ∈ logged p ->
     (exists rest, Log.line_text l = pfx +:+ rest)
     /\ Log.line_writer l = if useSyslog flags then Log.Syslog else Log.Stderr)
  /\ (forall lg stamp msg, logger p = Some lg ->
        exists rest, Log.line_text (Log.output lg stamp msg) = pfx +:+ rest)
  /\ pfx = "[" +:+ Fmt.pad_left 5 (Fmt.verb_d (getpid host)) +:+ "] "
  /\ String.length (Fmt.verb_5d (getpid host))
     = Nat.max 5 (String.length (Fmt.verb_d (getpid host)))
  /\ (forall pid, Fmt.sprintf_pid_prefix pid = pfx -> pid = getpid host).
Proof.
  intros pfx.
  assert (Hfmt : pfx = "[" +:+ Fmt.pad_left 5 (Fmt.verb_d (getpid host)) +:+ "] ")
    by reflexivity.
  assert (Hinj : forall pid, Fmt.sprintf_pid_prefix pid = pfx -> pid = getpid host)
    by (intros pid; apply FmtFacts.sprintf_pid_prefix_inj).
  pose proof (FmtFacts.verb_5d_length (getpid host)) as Hlen.
  subst pfx.
  startup_cases flags host.
  all: split; [intros l Hin; in_trace Hin; subst;
               (split; [eexists; reflexivity | reflexivity]) | ].
  all: split; [intros lg stamp msg Hlg; try discriminate Hlg;
               injection Hlg as <-; eexists; reflexivity | ].
  all: auto.
Qed.

(** C1, as the spec states it, fails: with an unreadable key file and a
    free port the listening socket is opened, and only then does the
    process die of the key material. *)
Lemma unreadable_key_still_binds :
  read_file (host_with files_no_key) (privateKeyPath (flags_ops false)) = None
  /\ main_startup (flags_ops false) (host_with files_no_key) boot
     = (mkProc (Some (Log.mkLogger Log.Stderr "[ 4242] ")) 0 None
               [EvListen "tcp4" "127.0.0.1:9443"; EvBuildConfig],
        Panicked KeyMaterialError)
  /\ EvListen "tcp4" "127.0.0.1:9443"
     ∈ trace (main_startup (flags_ops false) (host_with files_no_key) boot).1.
Proof.
  split; [reflexivity|]. split; [vm_compute; reflexivity|].
  vm_compute. constructor.
Qed.

(** C1, amended. With an unreadable private-key file the process always
    dies during start-up, before the TLS listener exists and before the
    accept loop is launched, so it never serves; but [main] binds the raw
    listening socket before it loads the key material: whenever the logger
    and the bind succeed, the socket is open when the process dies. *)
Theorem unreadable_key_aborts_before_serving flags host :
  read_file host (privateKeyPath flags) = None ->
  let '(p, o) := main_startup flags host boot in
  let '(network, address) := decodeAddress host (listenAddress flags) in
  (exists e, o = Panicked e)
  /\ (EvTLSListener ∉ trace p)
  /\ (forall t, EvGo t ∉ trace p)
  /\ (o = Panicked KeyMaterialError <->
      (useSyslog flags = true -> syslog_reachable host = true)
      /\ bind_granted host network address = true)
  /\ (o = Panicked KeyMaterialError ->
      trace p = [EvListen network address; EvBuildConfig]).
Proof.
  intros Hkey. pose proof (buildConfig_unreadable_key _ _ Hkey) as Hbad.
  startup_cases flags host.
  all: try congruence.
  all: assert (err = KeyMaterialError) as -> by congruence.
  all: split; [eauto|].
  all: split; [intros Hin; in_trace Hin|].
  all: split; [intros t Hin; in_trace Hin|].
  all: split; [|intros Ho; first [discriminate Ho | reflexivity]].
  all: intuition (try congruence; try discriminate).
Qed.

(** The amended C1 at the scenario whose key file cannot be read. *)
Lemma unreadable_key_aborts_witness :
  read_file (host_with files_no_key) (privateKeyPath (flags_ops false)) = None
  /\ (let '(p, o) := main_startup (flags_ops false) (host_with files_no_key) boot in
      let '(network, address) :=
        decodeAddress (host_with files_no_key) (listenAddress (flags_ops false)) in
      (exists e, o = Panicked e)
      /\ (EvTLSListener ∉ trace p)
      /\ (forall t, EvGo t ∉ trace p)
      /\ (o = Panicked KeyMaterialError <->
          (useSyslog (flags_ops false) = true ->
           syslog_reachable (host_with files_no_key) = true)
          /\ bind_granted (host_with files_no_key) network address = true)
      /\ (o = Panicked KeyMaterialError ->
          trace p = [EvListen network address; EvBuildConfig])).
Proof.
  split; [reflexivity|].
  apply (unreadable_key_aborts_before_serving (flags_ops false) (host_with files_no_key)).
  reflexivity.
Defined.

(** C3. A start-up enters [LISTENING] (the TLS listener is constructed and
    the accept loop launched), and completes, exactly when the logger comes
    up, the bind is granted and [buildConfig] returns. [main] sends a
    signal exactly when the start-up enters [LISTENING] and the
    graceful-child flag is set, and that signal is [SIGTERM] to the parent
    process id; so a process that enters [LISTENING] signals its parent if
    and only if the flag is set. The signal is sent once, and the socket is
    bound, the TLS listener constructed and the accept loop launched before
    it. *)
Theorem sigterm_to_parent_iff_graceful_child flags host :
  let '(p, o) := main_startup flags host boot in
  let '(network, address) := decodeAddress host (listenAddress flags) in
  let listening :=
    (useSyslog flags = true -> syslog_reachable host = true)
    /\ bind_granted host network address = true
    /\ exists cfg, buildConfig flags host = Returned cfg in
  (EvTLSListener ∈ trace p /\ EvGo TaskAccept ∈ trace p <-> listening)
  /\ (o = Returned tt <-> listening)
  /\ (forall pid sig,
        EvKill pid sig ∈ trace p <->
        listening /\ gracefulChild flags = true
        /\ pid = getppid host /\ sig = SIGTERM)
  /\ (forall pre pid sig post,
        trace p = (pre ++ EvKill pid sig :: post)%list ->
        (exists n a, EvListen n a ∈ pre)
        /\ EvTLSListener ∈ pre /\ EvGo TaskAccept ∈ pre
        /\ (forall pid' sig', (EvKill pid' sig' ∉ pre) /\ (EvKill pid' sig' ∉ post))).
Proof.
  startup_cases flags host.
  all: split; [split; [intros [H1 H2]; first [by in_trace H1 | by eauto]
                      | intros (H1 & H2 & cfg' & H3);
                        first [discriminate H2 | discriminate H3
                              | discriminate (H1 eq_refl) | split; set_solver]]|].
  all: split; [split; [intros Ho; first [discriminate Ho | by eauto]
                      | intros (H1 & H2 & cfg' & H3);
                        first [discriminate H2 | discriminate H3
                              | discriminate (H1 eq_refl) | reflexivity]]|].
  all: split; [intros pid sig; split;
                 [intros Hin; in_trace Hin; subst; by eauto 10
                 | intros ((H1 & H2 & cfg' & H3) & Hg & -> & ->);
                   first [discriminate H2 | discriminate H3 | discriminate Hg
                         | discriminate (H1 eq_refl) | set_solver]]|].
  all: intros pre pid sig post E; cut_trace pre E; simplify_eq.
  all: split; [exists network, address; set_solver|].
  all: split; [set_solver|]; split; [set_solver|].
  all: intros pid' sig'; split; intros Hin; in_trace Hin.
Qed.

(** C3 at the scenario: the start-up of a graceful child completes and
    sends [SIGTERM] to its parent, process 17; the same start-up without
    the flag sends no signal at all. *)
Lemma sigterm_to_parent_witness :
  gracefulChild (flags_ops true) = true
  /\ (main_startup (flags_ops true) (host_with files_all) boot).2 = Returned tt
  /\ EvKill 17 SIGTERM ∈ trace (main_startup (flags_ops true) (host_with files_all) boot).1
  /\ (forall pid sig,
        EvKill pid sig ∉ trace (main_startup (flags_ops false) (host_with files_all) boot).1).
Proof.
  pose proof (sigterm_to_parent_iff_graceful_child (flags_ops true) (host_with files_all)) as Hyes.
  pose proof (sigterm_to_parent_iff_graceful_child (flags_ops false) (host_with files_all)) as Hno.
  destruct (main_startup (flags_ops true) (host_with files_all) boot) as [p1 o1].
  destruct (main_startup (flags_ops false) (host_with files_all) boot) as [p2 o2].
  cbn in Hyes, Hno.
  destruct Hyes as (_ & Hret & Hkill & _). destruct Hno as (_ & _ & Hnone & _).
  assert (Hlistening :
    (false = true -> true = true) /\ true = true
    /\ exists cfg, buildConfig (flags_ops true) (host_with files_all) = Returned cfg).
  { split; [discriminate|]. split; [reflexivity|]. eexists. reflexivity. }
  split; [reflexivity|]. split; [exact (proj2 Hret Hlistening)|]. split.
  - apply Hkill. split; [exact Hlistening|]. split; [reflexivity|]. split; reflexivity.
  - intros pid sig Hin. apply Hnone in Hin as (_ & Hg & _). discriminate Hg.
Defined.

(** X1. [initLogger] dies, of the system log's error, exactly when the
    system log is asked for and cannot be opened, and then leaves the
    global logger nil; otherwise it leaves a global logger that writes to
    the system log exactly when asked to, with the pid prefix set. *)
Theorem initLogger_sets_prefix_or_dies flags host :
  initLogger flags host boot =
  if useSyslog flags && negb (syslog_reachable host)
  then (boot, Panicked SyslogError)
  else (mkProc (Some (Log.mkLogger (if useSyslog flags then Log.Syslog else Log.Stderr)
                                   (Fmt.sprintf_pid_prefix (getpid host))))
               0 None [],
        Returned tt).
Proof.
  unfold initLogger, syslog_NewLogger.
  destruct (useSyslog flags), (syslog_reachable host); startup_eval; reflexivity.
Qed.

(** X2. [main] calls [buildConfig] only with the listening socket already
    bound; it dies of the bind error exactly when the logger is up and the
    bind is refused, and then it has bound nothing and loaded nothing. *)
Theorem key_material_loaded_only_after_bind flags host :
  let '(p, o) := main_startup flags host boot in
  let '(network, address) := decodeAddress host (listenAddress flags) in
  (forall pre post, trace p = (pre ++ EvBuildConfig :: post)%list ->
     pre = [EvListen network address]
     /\ bind_granted host network address = true)
  /\ (o = Panicked BindError <->
      (useSyslog flags = true -> syslog_reachable host = true)
      /\ bind_granted host network address = false)
  /\ (o = Panicked BindError -> trace p = []).
Proof.
  assert (Hneq : forall e, buildConfig flags host = Panicked e -> e <> BindError).
  { unfold buildConfig. intros e E. repeat case_match; congruence. }
  startup_cases flags host.
  all: split; [intros pre post E; cut_trace pre E; subst; by split|].
  all: split; [split; [intros Ho | intros [H1 H2]] | intros Ho].
  all: first [ discriminate Ho
             | by (injection Ho as ->; destruct (Hneq _ eq_refl))
             | discriminate H2
             | discriminate (H1 eq_refl)
             | by split
             | reflexivity ].
Qed.

(** X3. A start-up completes exactly when the logger is up, the bind is
    granted and [buildConfig] returns. It then has done, in this order:
    bound the socket, built the configuration, wrapped the listener,
    launched the accept loop, the termination handler and the reload
    handler, and, for a graceful child only, signalled its parent; it has
    added one unit to the counter, made the [stopper] channel with room for
    one notification, and logged two lines, or three for a graceful
    child. *)
Theorem completed_startup_in_order flags host :
  let '(p, o) := main_startup flags host boot in
  let '(network, address) := decodeAddress host (listenAddress flags) in
  (o = Returned tt <->
   (useSyslog flags = true -> syslog_reachable host = true)
   /\ bind_granted host network address = true
   /\ exists cfg, buildConfig flags host = Returned cfg)
  /\ (o = Returned tt ->
      actions p
      = ([EvListen network address; EvBuildConfig; EvTLSListener;
          EvGo TaskAccept; EvGo TaskSigterm; EvGo TaskSigusr1]
         ++ (if gracefulChild flags then [EvKill (getppid host) SIGTERM] else []))%list
      /\ wg p = 1 /\ Main.stopper_cap p = Some 1%nat
      /\ length (logged p) = if gracefulChild flags then 3%nat else 2%nat).
Proof.
  startup_cases flags host.
  all: split; [|intros Ho; first [discriminate Ho | by repeat split]].
  all: split; [intros Ho; first [discriminate Ho | by eauto]|].
  all: intros (H1 & H2 & cfg' & H3);
       first [discriminate H2 | discriminate H3 | discriminate (H1 eq_refl) | reflexivity].
Qed.

(** X4. A start-up that fails has logged nothing, added nothing to the
    counter, made no channel, launched no task and sent no signal. It dies
    of the system log's error with no logger and nothing done, or of the
    bind error with nothing done, or of the very error [buildConfig] died
    of, with the socket bound and nothing else done. *)
Theorem failed_startup_is_silent flags host :
  let '(p, o) := main_startup flags host boot in
  let '(network, address) := decodeAddress host (listenAddress flags) in
  forall e, o = Panicked e ->
    logged p = [] /\ wg p = 0 /\ Main.stopper_cap p = None
    /\ (forall t, EvGo t ∉ trace p)
    /\ (forall pid sig, EvKill pid sig ∉ trace p)
    /\ (e = SyslogError /\ logger p = None /\ trace p = []
        \/ e = BindError /\ trace p = []
        \/ buildConfig flags host = Panicked e
           /\ trace p = [EvListen network address; EvBuildConfig]).
Proof.
  startup_cases flags host.
  all: intros e Ho; try discriminate Ho; injection Ho as <-.
  all: split; [reflexivity|]; split; [reflexivity|]; split; [reflexivity|].
  all: split; [intros t Hin; in_trace Hin|].
  all: split; [intros pid sig Hin; in_trace Hin|].
  all: first [ by left | by right; left | by right; right ].
Qed.

(** X6. [main] logs only once the TLS listener exists. The line that
    announces the signal to the parent is the last thing before the signal
    and names the process id that is signalled, and the three tasks are
    launched before it. In a run of [main] to its end the first line logged
    names the listen address, and the last thing [main] does is log that
    all connections are closed. *)
Theorem log_lines_in_order flags host :
  let pfx := Fmt.sprintf_pid_prefix (getpid host) in
  let '(p, o) := main flags host (ret tt) boot in
  (forall pre l post, trace p = (pre ++ EvLog l :: post)%list ->
     EvTLSListener ∈ pre)
  /\ (forall pre pid sig post, trace p = (pre ++ EvKill pid sig :: post)%list ->
        (exists l stamp,
           last pre = Some (EvLog l)
           /\ Log.line_text l
              = pfx +:+ stamp +:+ "sending SIGTERM to parent PID " +:+ Fmt.verb_d pid)
        /\ (forall t, EvGo t ∈ pre))
  /\ (o = Returned tt ->
      exists first rest final stamp1 stamp2,
        logged p = first :: rest
        /\ Log.line_text first
           = pfx +:+ stamp1 +:+ "listening on " +:+ TCPAddr_String (listenAddress flags)
        /\ last (trace p) = Some (EvLog final)
        /\ Log.line_text final
           = pfx +:+ stamp2 +:+ "all connections closed, shutting down").
Proof.
  intros pfx. subst pfx.
  startup_cases flags host.
  all: split; [intros pre l post E; cut_trace pre E; subst; set_solver|].
  all: split; [intros pre pid sig post E; cut_trace pre E; simplify_eq;
               (split; [do 2 eexists; split; reflexivity
                       | intros []; set_solver])|].
  all: intros Ho; try discriminate Ho.
  all: do 5 eexists; repeat split; reflexivity.
Qed.

End MainFacts.

(** ** The client-certificate policy *)

Module TLSFacts.

Import TLS Main Scenario.

Lemma cert_has_accepted_ou_spec accepted c :
  cert_has_accepted_ou accepted c = true <->
  exists ou, ou ∈ subject_ou c /\ ou ∈ accepted.
Proof.
  unfold cert_has_accepted_ou. rewrite existsb_exists. split.
  - intros (ou & Hin & Hacc). exists ou.
    split; [by apply list_elem_of_In | by apply bool_decide_eq_true in Hacc].
  - intros (ou & Hin & Hacc). exists ou.
    split; [by apply list_elem_of_In | by apply bool_decide_eq_true].
Qed.

Lemma chain_has_accepted_ou_spec accepted chain :
  chain_has_accepted_ou accepted chain = true <->
  exists c ou, c ∈ chain /\ ou ∈ subject_ou c /\ ou ∈ accepted.
Proof.
  unfold chain_has_accepted_ou. rewrite existsb_exists. split.
  - intros (c & Hin & Hc). apply cert_has_accepted_ou_spec in Hc as (ou & ? & ?).
    exists c, ou. split; [by apply list_elem_of_In | done].
  - intros (c & ou & Hin & Hou & Hacc). exists c.
    split; [by apply list_elem_of_In |].
    apply cert_has_accepted_ou_spec. eauto.
Qed.

(** What [buildConfig] puts into the configuration it returns. *)
Lemma buildConfig_returned flags host cfg :
  buildConfig flags host = Returned cfg ->
  clientAuth cfg = RequireAndVerifyClientCert
  /\ acceptedOUs cfg = clientNames flags
  /\ clientCAs cfg <> []
  /\ read_file host (caBundlePath flags) ≫= parse_ca_bundle host = Some (clientCAs cfg).
Proof.
  unfold buildConfig. intros E.
  repeat case_match; try discriminate E. injection E as <-. cbn.
  repeat split; try done.
Qed.

(** C2. The configuration [buildConfig] returns requires a client
    certificate and verifies it against the trust pool; a handshake without
    a certificate or with a chain that does not verify is rejected; for a
    chain that verifies, the handshake succeeds exactly when some
    certificate of the chain carries an organizational unit of the accepted
    set; and a chain whose organizational units are disjoint from the
    accepted set is rejected, its connection closed and counted out without
    a backend dial or a relay. *)
Theorem accepted_ou_decides_handshake
    (chains_to : list Certificate -> list Certificate -> bool) flags host cfg :
  buildConfig flags host = Returned cfg ->
  clientAuth cfg = RequireAndVerifyClientCert
  /\ handshake chains_to cfg None = RejectNoCertificate
  /\ (forall chain, chains_to (clientCAs cfg) chain = false ->
        handshake chains_to cfg (Some chain) = RejectUntrusted)
  /\ (forall chain, chains_to (clientCAs cfg) chain = true ->
        (handshake chains_to cfg (Some chain) = HandshakeOK <->
         exists c ou, c ∈ chain /\ ou ∈ subject_ou c /\ ou ∈ clientNames flags))
  /\ (forall chain backend_up,
        (forall c ou, c ∈ chain -> ou ∈ subject_ou c -> ou ∉ clientNames flags) ->
        handshake chains_to cfg (Some chain) <> HandshakeOK
        /\ handle chains_to cfg (Some chain) backend_up
           = [Handshake (handshake chains_to cfg (Some chain)); CloseClient; CounterDone]
        /\ (Relay ∉ handle chains_to cfg (Some chain) backend_up)
        /\ (forall b, DialBackend b ∉ handle chains_to cfg (Some chain) backend_up)).
Proof.
  intros Hcfg. apply buildConfig_returned in Hcfg as (Hauth & Hous & _ & _).
  split; [done|].
  split; [unfold handshake; by rewrite Hauth|].
  split; [intros chain Hno; unfold handshake; by rewrite Hauth, Hno|].
  split.
  - intros chain Hyes. unfold handshake. rewrite Hauth, Hyes, Hous. cbn.
    rewrite <- chain_has_accepted_ou_spec.
    destruct (chain_has_accepted_ou (clientNames flags) chain); split; congruence.
  - intros chain backend_up Hdisjoint.
    assert (Hno : chain_has_accepted_ou (acceptedOUs cfg) chain = false).
    { rewrite Hous. apply not_true_is_false. intros Hyes.
      apply chain_has_accepted_ou_spec in Hyes as (c & ou & ? & ? & ?).
      by eapply Hdisjoint. }
    assert (Hrej : handshake chains_to cfg (Some chain) <> HandshakeOK).
    { unfold handshake. rewrite Hno. by case_match. }
    split; [done|].
    assert (Hhandle : handle chains_to cfg (Some chain) backend_up
                      = [Handshake (handshake chains_to cfg (Some chain));
                         CloseClient; CounterDone]).
    { unfold handle. by destruct (handshake chains_to cfg (Some chain)). }
    split; [done|]. rewrite Hhandle.
    split; [|intros b]; intros Hin;
      repeat (apply elem_of_cons in Hin as [Hin|Hin]; [discriminate Hin|]);
      by apply elem_of_nil in Hin.
Qed.

(** C2 at the scenario of spec 8: the key material loads, a chain with the
    unit [ops] is let in and a chain with the unit [guest] is not. *)
Lemma accepted_ou_witness :
  let cfg := mkConfig (mkKeyPair "server.crt" "server.key")
                      RequireAndVerifyClientCert [ca_cert] ["ops"] in
  buildConfig (flags_ops false) (host_with files_all) = Returned cfg
  /\ handshake chains_to_ca cfg (Some [ops_cert]) = HandshakeOK
  /\ handshake chains_to_ca cfg (Some [guest_cert]) = RejectNoAcceptedOU
  /\ (Relay ∉ handle chains_to_ca cfg (Some [guest_cert]) true).
Proof.
  intros cfg.
  assert (Hcfg : buildConfig (flags_ops false) (host_with files_all) = Returned cfg)
    by reflexivity.
  destruct (accepted_ou_decides_handshake chains_to_ca _ _ _ Hcfg)
    as (_ & _ & _ & Hiff & Hdisjoint).
  split; [done|]. split; [|split].
  - apply Hiff; [reflexivity|].
    exists ops_cert, "ops". repeat split; by apply list_elem_of_singleton.
  - reflexivity.
  - apply (Hdisjoint [guest_cert] true).
    intros c ou Hc Hou Hacc.
    apply list_elem_of_singleton in Hc as ->.
    apply list_elem_of_singleton in Hou as ->.
    apply list_elem_of_singleton in Hacc. discriminate Hacc.
Defined.

End TLSFacts.

(** ** The serving phase *)

Module LifecycleFacts.

Import Main Lifecycle Scenario.

(** Counting the live set when a connection joins or leaves. *)
Lemma size_live_insert (c : nat) (X : gset nat) :
  c ∉ X -> size ({[c]} ∪ X) = S (size X).
Proof. intros H. rewrite size_union by set_solver. by rewrite size_singleton. Qed.

Lemma size_live_remove (c : nat) (X : gset nat) :
  c ∈ X -> size X = S (size (X ∖ {[c]})).
Proof.
  intros H. rewrite (union_difference_L {[c]} X) at 1 by set_solver.
  rewrite size_union by set_solver. by rewrite size_singleton.
Qed.

(** Every step keeps the invariant. *)
Lemma step_inv s l s' : step s l = Some s' -> inv s -> inv s'.
Proof.
  intros Hstep Hinv.
  destruct s as [ph mt n ac lo cl st cap lv ch].
  step_inversion Hstep.
  all: try assumption.
  all: try match goal with Hin : ?c ∉ ?X |- _ => pose proof (size_live_insert c X Hin) end.
  all: try match goal with Hin : ?c ∈ ?X |- _ => pose proof (size_live_remove c X Hin) end.
  all: destruct Hinv as [Hc Hb Hr Hcl Hst Hcap Hsd Ht Hd Hcd Hs0]; cbn in *.
  all: constructor; cbn in *.
  all: repeat case_decide.
  all: try reflexivity; try tauto; try congruence; try lia.
  all: try (intuition (first [congruence | lia])).
  all: try (destruct lo, ac; cbn in *; subst; intuition (first [congruence | lia])).
Qed.

Lemma init_inv p : wg p = 1 -> Main.stopper_cap p = Some 1%nat -> inv (init p).
Proof.
  intros Hwg Hcap. unfold init. rewrite Hwg, Hcap.
  constructor; cbn; try done; try (intuition congruence).
Qed.

Lemma run_inv ls : forall s s', run s ls = Some s' -> inv s -> inv s'.
Proof.
  induction ls as [|l ls IH]; cbn; intros s s' Hrun Hinv.
  - by simplify_eq.
  - destruct (step s l) as [s1|] eqn:Hstep; [|done]. eauto using step_inv.
Qed.

(** Only its own completion takes a connection out of the live set. *)
Lemma step_live_kept s l s' (c : nat) :
  step s l = Some s' -> c ∈ live s -> c ∈ live s' \/ l = ConnDone c.
Proof.
  intros Hstep Hin.
  destruct s as [ph mt n ac lo cl st cap lv ch].
  step_inversion Hstep.
  all: try (left; set_solver).
  all: match goal with |- _ ∨ ConnDone ?d = _ =>
         destruct (decide (c = d)) as [->|]; [by right | left; set_solver]
       end.
Qed.

(** The live set loses at most one connection per step, and only to a
    completion. *)
Lemma step_live_size s l s' :
  step s l = Some s' ->
  (size (live s) <= size (live s') + (if is_conn_done l then 1 else 0))%nat.
Proof.
  intros Hstep.
  destruct s as [ph mt n ac lo cl st cap lv ch].
  step_inversion Hstep.
  all: try match goal with Hin : ?c ∉ ?X |- _ => pose proof (size_live_insert c X Hin) end.
  all: try match goal with Hin : ?c ∈ ?X |- _ => pose proof (size_live_remove c X Hin) end.
  all: lia.
Qed.

Lemma run_live_kept ls : forall s s' (c : nat),
  run s ls = Some s' -> c ∈ live s -> c ∈ live s' \/ ConnDone c ∈ ls.
Proof.
  induction ls as [|l ls IH]; cbn; intros s s' c Hrun Hin.
  - simplify_eq. by left.
  - destruct (step s l) as [s1|] eqn:Hstep; [|done].
    destruct (step_live_kept _ _ _ c Hstep Hin) as [Hin1| ->].
    + destruct (IH _ _ _ Hrun Hin1); [by left | right; by constructor].
    + right. constructor.
Qed.

Lemma run_live_size ls : forall s s',
  run s ls = Some s' ->
  (size (live s) <= size (live s') + length (List.filter is_conn_done ls))%nat.
Proof.
  induction ls as [|l ls IH]; cbn; intros s s' Hrun.
  - simplify_eq. lia.
  - destruct (step s l) as [s1|] eqn:Hstep; [|done].
    pose proof (step_live_size _ _ _ Hstep). pose proof (IH _ _ Hrun).
    destruct (is_conn_done l); cbn; lia.
Qed.

(** Once closed, the listener stays closed and nobody new is taken in. *)
Lemma step_closed s l s' :
  step s l = Some s' -> listener_open s = false ->
  listener_open s' = false /\ live s' ⊆ live s /\ (forall c, l <> Accept c).
Proof.
  intros Hstep Hclosed.
  destruct s as [ph mt n ac lo cl st cap lv ch].
  step_inversion Hstep.
  all: try discriminate.
  all: split; [done|]; split; [set_solver|]; done.
Qed.

Lemma run_closed ls : forall s s',
  run s ls = Some s' -> listener_open s = false ->
  listener_open s' = false /\ live s' ⊆ live s /\ (forall c, Accept c ∉ ls).
Proof.
  induction ls as [|l ls IH]; cbn; intros s s' Hrun Hclosed.
  - simplify_eq. split; [done|]. split; [done|]. intros c Hin. by apply elem_of_nil in Hin.
  - destruct (step s l) as [s1|] eqn:Hstep; [|done].
    destruct (step_closed _ _ _ Hstep Hclosed) as (Hc1 & Hsub1 & Hne).
    destruct (IH _ _ Hrun Hc1) as (Hc2 & Hsub2 & Hnin).
    split; [done|]. split; [set_solver|].
    intros c Hin. apply elem_of_cons in Hin as [Heq|Hin]; [by eapply Hne | by eapply Hnin].
Qed.

Lemma accept_refused_when_closed s (c : nat) :
  listener_open s = false -> step s (Accept c) = None.
Proof.
  intros Hclosed. unfold step, on_accept.
  case_decide; [done|]. case_decide as Hguard; [|done].
  destruct Hguard as (_ & Hopen & _). congruence.
Qed.

(** How the accept loop and the listener got where they are. *)
Lemma step_history s l s' :
  step s l = Some s' ->
  (acceptor s' = AcceptRunning -> acceptor s = AcceptRunning)
  /\ (acceptor s' = AcceptStopped -> acceptor s = AcceptStopped \/ l = AcceptStop)
  /\ (acceptor s' = AcceptFailed -> acceptor s = AcceptFailed \/ l = AcceptFatal)
  /\ (acceptor s = AcceptRunning ->
      acceptor s' = AcceptRunning \/ l = AcceptStop \/ l = AcceptFatal)
  /\ (listener_open s' = false -> listener_open s = false \/ l = SigTerm).
Proof.
  intros Hstep.
  destruct s as [ph mt n ac lo cl st cap lv ch].
  step_inversion Hstep.
  all: repeat split; intros; try discriminate; auto.
Qed.

Lemma run_history ls : forall s s',
  run s ls = Some s' ->
  (acceptor s' = AcceptRunning -> acceptor s = AcceptRunning)
  /\ (acceptor s' = AcceptStopped -> acceptor s = AcceptStopped \/ AcceptStop ∈ ls)
  /\ (acceptor s' = AcceptFailed -> acceptor s = AcceptFailed \/ AcceptFatal ∈ ls)
  /\ (acceptor s = AcceptRunning ->
      acceptor s' = AcceptRunning \/ AcceptStop ∈ ls \/ AcceptFatal ∈ ls)
  /\ (listener_open s' = false -> listener_open s = false \/ SigTerm ∈ ls).
Proof.
  induction ls as [|l ls IH]; cbn; intros s s' Hrun.
  - simplify_eq. tauto.
  - destruct (step s l) as [s1|] eqn:Hstep; [|done].
    destruct (step_history _ _ _ Hstep) as (A1 & A2 & A3 & A4 & A5).
    destruct (IH _ _ Hrun) as (B1 & B2 & B3 & B4 & B5).
    repeat split; intros Hq.
    + auto.
    + destruct (B2 Hq) as [Hq'|?]; [|right; by constructor].
      destruct (A2 Hq') as [?| ->]; [by left | right; constructor].
    + destruct (B3 Hq) as [Hq'|?]; [|right; by constructor].
      destruct (A3 Hq') as [?| ->]; [by left | right; constructor].
    + destruct (A4 Hq) as [Hq'|[-> | ->]].
      * destruct (B4 Hq') as [?|[?|?]];
          [by left | right; left; by constructor | right; right; by constructor].
      * right; left; constructor.
      * right; right; constructor.
    + destruct (B5 Hq) as [Hq'|?]; [|right; by constructor].
      destruct (A5 Hq') as [?| ->]; [by left | right; constructor].
Qed.

(** Start-up hands the serving phase a state that satisfies the invariant. *)
Lemma startup_inv flags host p :
  main_startup flags host boot = (p, Returned tt) -> inv (init p).
Proof.
  intros Hstart.
  destruct (MainFacts.startup_returned _ _ _ Hstart) as (Hwg & Hcap & _).
  by apply init_inv.
Qed.

Lemma reachable_inv flags host p ls s :
  main_startup flags host boot = (p, Returned tt) ->
  run (init p) ls = Some s -> inv s.
Proof. eauto using run_inv, startup_inv. Qed.

Lemma size_zero_empty (X : gset nat) : size X = 0%nat -> X = ∅.
Proof. intros Hz. apply leibniz_equiv. by apply size_empty_inv. Qed.

(** A zero counter means nobody is connected and the accept loop is gone. *)
Lemma drained s :
  inv s -> counter s = 0 -> live s = ∅ /\ acceptor s <> AcceptRunning.
Proof.
  intros Hinv Hzero. pose proof (inv_counter _ Hinv) as Hc.
  destruct (acceptor s); cbn in Hc.
  - lia.
  - split; [|done]. apply size_zero_empty. lia.
  - split; [|done]. apply size_zero_empty. lia.
Qed.

(** A connection that is still live can always finish. *)
Lemma conn_done_enabled s (c : nat) :
  inv s -> c ∈ live s -> exit_code s = None /\ is_Some (step s (ConnDone c)).
Proof.
  intros Hinv Hin.
  assert (Hrun : mainTask s <> MainReturned).
  { intros Hret. destruct (drained s Hinv) as [Hempty _].
    - apply (inv_released _ Hinv). by right.
    - rewrite Hempty in Hin. set_solver. }
  split.
  - unfold exit_code. by destruct (mainTask s).
  - unfold step, on_conn_done. rewrite decide_False by done.
    rewrite decide_True by done. eauto.
Qed.

(** C4. Whatever happened before the termination signal and in whatever
    order things happen after it: once [main] is past [wg.Wait()] the
    counter is zero, no connection is live, and each of the N connections
    that were live when the signal arrived has finished on its own since
    (so at least N have); while a connection is live the counter is above
    zero and the process has neither an exit status nor reached
    [TERMINATED]. *)
Theorem drain_waits_for_every_connection flags host p before after s s' :
  main_startup flags host boot = (p, Returned tt) ->
  run (init p) before = Some s ->
  run s (SigTerm :: after) = Some s' ->
  (mainTask s' = MainReleased \/ mainTask s' = MainReturned ->
     counter s' = 0 /\ live s' = ∅
     /\ (forall c, c ∈ live s -> ConnDone c ∈ after)
     /\ (size (live s) <= length (List.filter is_conn_done after))%nat)
  /\ (live s' <> ∅ ->
      0 < counter s' /\ exit_code s' = None /\ phase s' <> TERMINATED
      /\ (mainTask s' = MainRunning \/ mainTask s' = MainBlocked)).
Proof.
  intros Hstart Hbefore Hafter.
  assert (Hinv : inv s) by eauto using reachable_inv.
  assert (Hinv' : inv s') by eauto using run_inv.
  split.
  - intros Hpast. pose proof (inv_released _ Hinv' Hpast) as Hzero.
    destruct (drained _ Hinv' Hzero) as [Hempty _].
    split; [done|]. split; [done|]. split.
    + intros c Hin.
      destruct (run_live_kept _ _ _ c Hafter Hin) as [Hlive|Hdone].
      * rewrite Hempty in Hlive. set_solver.
      * apply elem_of_cons in Hdone as [Hdone|Hdone]; [discriminate Hdone | done].
    + pose proof (run_live_size _ _ _ Hafter) as Hsize.
      rewrite Hempty, size_empty in Hsize. cbn in Hsize. lia.
  - intros Hlive.
    assert (Hpos : 0 < counter s').
    { pose proof (inv_counter _ Hinv') as Hc.
      assert (size (live s') <> 0%nat) by (intros Hz; by apply size_zero_empty in Hz).
      destruct (acceptor s'); cbn in Hc; lia. }
    assert (Hmain : mainTask s' = MainRunning \/ mainTask s' = MainBlocked).
    { pose proof (inv_released _ Hinv') as Hrel.
      destruct (mainTask s'); auto; exfalso; cut (counter s' = 0); auto; lia. }
    split; [done|]. split; [|split; [|done]].
    + unfold exit_code. by destruct Hmain as [-> | ->].
    + intros Hterm. apply (inv_terminated _ Hinv') in Hterm.
      destruct Hmain; congruence.
Qed.

(** C4 at the scenario: two connections live at the signal, finishing in
    the order opposite to their arrival. *)
Lemma drain_waits_witness :
  main_startup (flags_ops false) (host_with files_all) boot = (proc_listening, Returned tt)
  /\ run (init proc_listening) before_signal = Some at_signal
  /\ run at_signal (SigTerm :: after_signal) = Some at_exit
  /\ live at_signal = {[1%nat; 2%nat]}
  /\ mainTask at_exit = MainReturned
  /\ counter at_exit = 0 /\ live at_exit = ∅
  /\ (forall c, c ∈ live at_signal -> ConnDone c ∈ after_signal).
Proof.
  assert (H1 : main_startup (flags_ops false) (host_with files_all) boot
               = (proc_listening, Returned tt)) by (vm_compute; reflexivity).
  assert (H2 : run (init proc_listening) before_signal = Some at_signal)
    by (vm_compute; reflexivity).
  assert (H3 : run at_signal (SigTerm :: after_signal) = Some at_exit)
    by (vm_compute; reflexivity).
  assert (H4 : mainTask at_exit = MainReturned) by (vm_compute; reflexivity).
  destruct (drain_waits_for_every_connection _ _ _ _ _ _ _ H1 H2 H3) as [Hpast _].
  destruct (Hpast (or_intror H4)) as (Hzero & Hempty & Hall & _).
  split; [exact H1|]. split; [exact H2|]. split; [exact H3|].
  split; [vm_compute; reflexivity|]. split; [exact H4|].
  split; [exact Hzero|]. split; [exact Hempty | exact Hall].
Defined.

(** A signal leaves the counter, the connections, [main] and the accept
    loop alone. *)
Lemma sigterm_frame s s1 :
  step s SigTerm = Some s1 ->
  counter s1 = counter s /\ live s1 = live s
  /\ mainTask s1 = mainTask s /\ acceptor s1 = acceptor s.
Proof.
  unfold step, on_sigterm. case_decide; [done|].
  destruct (phase s); intros E; try discriminate E; by injection E as <-.
Qed.

(** C5. While [DRAINING], a further termination signal is taken and
    leaves the state as it is. Over every run, whatever signals arrive and
    however often: the listener is closed at most once, and not again once
    the process is [DRAINING]; the stop notifications waiting in the
    [stopper] channel never exceed its capacity; and a termination signal
    never changes the counter or the set of live connections. *)
Theorem second_sigterm_is_noop flags host p ls s :
  main_startup flags host boot = (p, Returned tt) ->
  run (init p) ls = Some s ->
  (phase s = DRAINING -> step s SigTerm = Some s)
  /\ (forall s1, step s SigTerm = Some s1 ->
        counter s1 = counter s /\ live s1 = live s)
  /\ (closes s <= 1)%nat
  /\ (length (stopper s) <= Lifecycle.stopper_cap s)%nat
  /\ (phase s = DRAINING ->
      forall ls' s', run s ls' = Some s' -> closes s' = 1%nat /\ closes s = 1%nat).
Proof.
  intros Hstart Hrun.
  assert (Hinv : inv s) by eauto using reachable_inv.
  split; [|split; [|split; [|split]]].
  - intros Hdraining. unfold step, on_sigterm. rewrite Hdraining.
    rewrite decide_False; [done|].
    intros Hret. apply (inv_terminated _ Hinv) in Hret. congruence.
  - intros s1 Hterm. destruct (sigterm_frame _ _ Hterm) as (? & ? & _). done.
  - rewrite (inv_closes _ Hinv). destruct (listener_open s); lia.
  - rewrite (inv_stopper _ Hinv), (inv_cap _ Hinv).
    destruct (listener_open s), (acceptor s); cbn; lia.
  - intros Hdraining ls' s' Hrun'.
    pose proof (inv_draining _ Hinv Hdraining) as Hclosed.
    destruct (run_closed _ _ _ Hrun' Hclosed) as (Hclosed' & _ & _).
    assert (Hinv' : inv s') by eauto using run_inv.
    rewrite (inv_closes _ Hinv'), (inv_closes _ Hinv), Hclosed, Hclosed'. done.
Qed.

(** C5 at the scenario: the process is [DRAINING] after the first signal,
    and the second changes nothing. *)
Lemma second_sigterm_witness :
  main_startup (flags_ops false) (host_with files_all) boot = (proc_listening, Returned tt)
  /\ run (init proc_listening) (before_signal ++ [SigTerm]) = Some at_draining
  /\ phase at_draining = DRAINING
  /\ step at_draining SigTerm = Some at_draining
  /\ (closes at_draining <= 1)%nat.
Proof.
  assert (H1 : main_startup (flags_ops false) (host_with files_all) boot
               = (proc_listening, Returned tt)) by (vm_compute; reflexivity).
  assert (H2 : run (init proc_listening) (before_signal ++ [SigTerm]) = Some at_draining)
    by (vm_compute; reflexivity).
  assert (H3 : phase at_draining = DRAINING) by (vm_compute; reflexivity).
  destruct (second_sigterm_is_noop _ _ _ _ _ H1 H2) as (Hnoop & _ & Honce & _).
  split; [exact H1|]. split; [exact H2|]. split; [exact H3|].
  split; [exact (Hnoop H3) | exact Honce].
Defined.

(** C7. A connection that is live (accepted and not finished) can finish
    at any time; the termination signal leaves it live and able to finish;
    nothing but its own completion takes it out of the live set, and while
    it is live the process has no exit status. Once the listener is closed
    it stays closed, the accept call fails for every connection, no run
    contains an accept, and the live set only shrinks. *)
Theorem accepted_finish_and_closed_listener_accepts_none flags host p ls s :
  main_startup flags host boot = (p, Returned tt) ->
  run (init p) ls = Some s ->
  (forall c, c ∈ live s ->
     is_Some (step s (ConnDone c))
     /\ (forall s1, step s SigTerm = Some s1 ->
           c ∈ live s1 /\ is_Some (step s1 (ConnDone c)))
     /\ (forall ls' s', run s ls' = Some s' ->
           (c ∈ live s' \/ ConnDone c ∈ ls')
           /\ (c ∈ live s' -> exit_code s' = None /\ is_Some (step s' (ConnDone c)))))
  /\ (listener_open s = false ->
      forall ls' s', run s ls' = Some s' ->
        listener_open s' = false /\ live s' ⊆ live s
        /\ (forall c, (Accept c ∉ ls') /\ step s' (Accept c) = None)).
Proof.
  intros Hstart Hrun.
  assert (Hinv : inv s) by eauto using reachable_inv.
  split.
  - intros c Hin. split; [by apply conn_done_enabled|]. split.
    + intros s1 Hterm.
      destruct (step_live_kept _ _ _ c Hterm Hin) as [Hin1|Hne]; [|discriminate Hne].
      split; [done|]. apply conn_done_enabled; [by eapply step_inv | done].
    + intros ls' s' Hrun'. split; [by eapply run_live_kept|].
      intros Hin'. apply conn_done_enabled; [by eapply run_inv | done].
  - intros Hclosed ls' s' Hrun'.
    destruct (run_closed _ _ _ Hrun' Hclosed) as (Hclosed' & Hsub & Hnone).
    split; [done|]. split; [done|].
    intros c. split; [apply Hnone | by apply accept_refused_when_closed].
Qed.

(** C7 at the scenario: the two connections live at the signal stay live
    through it, and the closed listener refuses a third. *)
Lemma accepted_finish_witness :
  main_startup (flags_ops false) (host_with files_all) boot = (proc_listening, Returned tt)
  /\ run (init proc_listening) (before_signal ++ [SigTerm]) = Some at_draining
  /\ listener_open at_draining = false
  /\ step at_draining (Accept 3) = None
  /\ (forall ls' s', run at_draining ls' = Some s' ->
        listener_open s' = false).
Proof.
  assert (H1 : main_startup (flags_ops false) (host_with files_all) boot
               = (proc_listening, Returned tt)) by (vm_compute; reflexivity).
  assert (H2 : run (init proc_listening) (before_signal ++ [SigTerm])
               = Some at_draining)
    by (vm_compute; reflexivity).
  assert (H3 : listener_open at_draining = false)
    by (vm_compute; reflexivity).
  destruct (accepted_finish_and_closed_listener_accepts_none _ _ _ _ _ H1 H2)
    as [_ Hclosed].
  split; [exact H1|]. split; [exact H2|]. split; [exact H3|]. split.
  - destruct (Hclosed H3 [] _ eq_refl) as (_ & _ & Hnone). exact (proj2 (Hnone 3%nat)).
  - intros ls' s' Hrun. exact (proj1 (Hclosed H3 ls' s' Hrun)).
Defined.

(** C9. [main] leaves the counter at one with nobody connected: the unit
    of the accept loop. Until the accept loop has ended the counter stays
    at one or more and [main] has not passed [wg.Wait()], connections or
    not; and when [main] is past the wait the accept loop has ended, and
    unless it died of an accept error it ended on the stop notification:
    the termination signal closed the listener and the loop stopped. *)
Theorem accept_loop_unit_blocks_exit flags host p :
  main_startup flags host boot = (p, Returned tt) ->
  wg p = 1 /\ counter (init p) = 1 /\ live (init p) = ∅
  /\ acceptor (init p) = AcceptRunning
  /\ forall ls s, run (init p) ls = Some s ->
       ((AcceptStop ∉ ls) -> (AcceptFatal ∉ ls) ->
          1 <= counter s /\ exit_code s = None
          /\ (mainTask s = MainRunning \/ mainTask s = MainBlocked))
       /\ (mainTask s = MainReleased \/ mainTask s = MainReturned ->
             acceptor s <> AcceptRunning
             /\ ((AcceptFatal ∉ ls) ->
                   acceptor s = AcceptStopped /\ AcceptStop ∈ ls /\ SigTerm ∈ ls
                   /\ listener_open s = false)).
Proof.
  intros Hstart.
  destruct (MainFacts.startup_returned _ _ _ Hstart) as (Hwg & Hcap & _).
  split; [done|]. split; [done|]. split; [done|]. split; [done|].
  intros ls s Hrun.
  assert (Hinv : inv s) by eauto using reachable_inv.
  destruct (run_history _ _ _ Hrun) as (_ & Hstopped & Hfailed & Hrunning & Hclosed).
  split.
  - intros Hnostop Hnofatal.
    assert (Hacc : acceptor s = AcceptRunning).
    { destruct (Hrunning eq_refl) as [?|[?|?]];
        [done | by destruct Hnostop | by destruct Hnofatal]. }
    pose proof (inv_counter _ Hinv) as Hc. rewrite Hacc in Hc. cbn in Hc.
    assert (Hpos : 1 <= counter s) by lia.
    assert (Hmain : mainTask s = MainRunning \/ mainTask s = MainBlocked).
    { pose proof (inv_released _ Hinv) as Hrel.
      destruct (mainTask s); auto; exfalso; cut (counter s = 0); auto; lia. }
    split; [done|]. split; [|done].
    unfold exit_code. by destruct Hmain as [-> | ->].
  - intros Hpast. pose proof (inv_released _ Hinv Hpast) as Hzero.
    destruct (drained _ Hinv Hzero) as [_ Hended].
    split; [done|]. intros Hnofatal.
    assert (Hacc : acceptor s = AcceptStopped).
    { destruct (acceptor s) eqn:Hacc; [done | done |].
      destruct (Hfailed eq_refl) as [Hinit|?]; [discriminate Hinit | by destruct Hnofatal]. }
    pose proof (inv_stopped _ Hinv Hacc) as Hshut.
    split; [done|]. split; [|split; [|done]].
    + destruct (Hstopped Hacc) as [Hinit|?]; [discriminate Hinit | done].
    + destruct (Hclosed Hshut) as [Hinit|?]; [discriminate Hinit | done].
Qed.

(** C9 at the scenario: the start-up leaves one unit and no connection. *)
Lemma accept_loop_unit_witness :
  main_startup (flags_ops false) (host_with files_all) boot = (proc_listening, Returned tt)
  /\ wg proc_listening = 1
  /\ counter (init proc_listening) = 1
  /\ live (init proc_listening) = ∅.
Proof.
  assert (H1 : main_startup (flags_ops false) (host_with files_all) boot
               = (proc_listening, Returned tt)) by (vm_compute; reflexivity).
  destruct (accept_loop_unit_blocks_exit _ _ _ H1) as (Hwg & Hone & Hnone & _).
  split; [exact H1|]. split; [exact Hwg|]. split; [exact Hone | exact Hnone].
Defined.

End LifecycleFacts.

(** ** How the process ends *)

Module ProcessFacts.

Import TLS Main Lifecycle Process Scenario.

(** A drained process exits: [main] is not blocked, and its own steps (at
    most the call of [wg.Wait()] and the return) end it with status 0. *)
Lemma drained_exits s :
  inv s -> counter s = 0 ->
  exists ls' s', run s ls' = Some s' /\ exit_code s' = Some 0
                 /\ forall l, l ∈ ls' -> l = MainWait \/ l = MainReturn.
Proof.
  intros Hinv Hzero. pose proof (inv_blocked _ Hinv) as Hblocked.
  destruct s as [ph mt n ac lo cl st cap lv ch]; cbn in Hzero, Hblocked; subst n.
  destruct mt.
  - exists [MainWait; MainReturn]. eexists. split; [reflexivity|].
    split; [reflexivity|].
    intros l Hin. apply elem_of_cons in Hin as [->|Hin]; [by left|].
    apply list_elem_of_singleton in Hin as ->. by right.
  - by destruct Hblocked.
  - exists [MainReturn]. eexists. split; [reflexivity|].
    split; [reflexivity|].
    intros l Hin. apply list_elem_of_singleton in Hin as ->. by right.
  - exists []. eexists. split; [reflexivity|]. split; [reflexivity|].
    intros l Hin. by apply elem_of_nil in Hin.
Qed.

(** A connection taken in by a step is live after it. *)
Lemma step_accept_live s (c : nat) s' :
  step s (Accept c) = Some s' -> c ∈ live s'.
Proof.
  unfold step, on_accept. case_decide; [done|]. case_decide; [|done].
  intros E. injection E as <-. cbn. set_solver.
Qed.

(** A connection taken in during a run is live at its end or has finished
    during it. *)
Lemma run_accepted ls : forall s s' (c : nat),
  run s ls = Some s' -> Accept c ∈ ls -> c ∈ live s' \/ ConnDone c ∈ ls.
Proof.
  induction ls as [|l ls IH]; cbn; intros s s' c Hrun Hin.
  - by apply elem_of_nil in Hin.
  - destruct (step s l) as [s1|] eqn:Hstep; [|done].
    apply elem_of_cons in Hin as [<-|Hin].
    + pose proof (step_accept_live _ _ _ Hstep) as Hlive.
      destruct (LifecycleFacts.run_live_kept _ _ _ c Hrun Hlive); [by left | right; by constructor].
    + destruct (IH _ _ _ Hrun Hin); [by left | right; by constructor].
Qed.

(** [main] gets past line 94 only by calling [wg.Wait()], and returns only
    by its return step. *)
Lemma step_main_history s l s' :
  step s l = Some s' ->
  (mainTask s' <> MainRunning -> mainTask s <> MainRunning \/ l = MainWait)
  /\ (mainTask s' = MainReturned -> l = MainReturn).
Proof.
  intros Hstep.
  destruct s as [ph mt n ac lo cl st cap lv ch].
  step_inversion Hstep.
  all: split; intros; try done; auto.
Qed.

(** The same over a run. *)
Lemma run_main_history ls : forall s s',
  run s ls = Some s' ->
  (mainTask s' <> MainRunning -> mainTask s <> MainRunning \/ MainWait ∈ ls)
  /\ (mainTask s' = MainReturned -> mainTask s = MainReturned \/ MainReturn ∈ ls).
Proof.
  induction ls as [|l ls IH]; cbn; intros s s' Hrun.
  - simplify_eq. tauto.
  - destruct (step s l) as [s1|] eqn:Hstep; [|done].
    destruct (step_main_history _ _ _ Hstep) as [A1 A2].
    destruct (IH _ _ Hrun) as [B1 B2]. split; intros Hq.
    + destruct (B1 Hq) as [Hq'|?]; [|right; by constructor].
      destruct (A1 Hq') as [?| ->]; [by left | right; constructor].
    + destruct (B2 Hq) as [Hq'|?]; [|right; by constructor].
      right. rewrite (A2 Hq'). constructor.
Qed.

(** C6. The process ends with status 0 or 2. It ends with 2 exactly when
    start-up fails, which it does exactly when the system log is asked for
    and cannot be opened, the address cannot be bound, or [buildConfig]
    fails; such a process never ends with 0 and dies before the TLS
    listener exists and before any task is launched. In every run of a
    process whose start-up completed: if the process has exit status 0,
    then [main] called [wg.Wait()] and returned, the counter is zero, no
    connection is live, the accept loop has ended, every connection taken
    in during the run has finished during it, and, unless the accept loop
    died of an accept error, the termination signal was received and the
    listener is closed; while the counter is not zero the process has no
    exit status and [main] cannot return; and once the counter is zero
    [main]'s own steps end the process with status 0. *)
Theorem exit_status_zero_iff_clean_drain flags host :
  (forall z, exits flags host z -> z = 0 \/ z = 2)
  /\ (exits flags host 2 <-> exists p e, main_startup flags host boot = (p, Panicked e))
  /\ (exits flags host 0 -> exists p, main_startup flags host boot = (p, Returned tt))
  /\ (forall p e, main_startup flags host boot = (p, Panicked e) ->
        ~ exits flags host 0
        /\ (EvTLSListener ∉ trace p) /\ (forall t, EvGo t ∉ trace p))
  /\ (let '(network, address) := decodeAddress host (listenAddress flags) in
      (exists p e, main_startup flags host boot = (p, Panicked e)) <->
      (useSyslog flags = true /\ syslog_reachable host = false)
      \/ bind_granted host network address = false
      \/ (exists e, buildConfig flags host = Panicked e))
  /\ (forall p ls s,
        main_startup flags host boot = (p, Returned tt) ->
        run (init p) ls = Some s ->
        (exit_code s = Some 0 ->
           exits flags host 0
           /\ counter s = 0 /\ live s = ∅ /\ acceptor s <> AcceptRunning
           /\ MainWait ∈ ls /\ MainReturn ∈ ls
           /\ (forall c, Accept c ∈ ls -> ConnDone c ∈ ls)
           /\ ((AcceptFatal ∉ ls) ->
                 SigTerm ∈ ls /\ AcceptStop ∈ ls /\ listener_open s = false))
        /\ (counter s <> 0 -> exit_code s = None /\ step s MainReturn = None)
        /\ (counter s = 0 ->
              exists ls' s',
                run s ls' = Some s' /\ exit_code s' = Some 0
                /\ forall l, l ∈ ls' -> l = MainWait \/ l = MainReturn)).
Proof.
  assert (Hnot0 : forall p e, main_startup flags host boot = (p, Panicked e) ->
                              ~ exits flags host 0).
  { intros p e Hstart Hexit.
    inversion Hexit as [p1 e1 Hstart1 Hz | p1 ls s p' Hstart1 Hrun Hcode Hshut Hz
                        | p1 ls s p' e1 Hstart1 Hrun Hmain Hshut Hz];
      try discriminate Hz. congruence. }
  split; [|split; [|split; [|split; [|split]]]].
  - intros z Hexit. destruct Hexit; cbn; auto.
  - split.
    + intros Hexit.
      inversion Hexit as [p e Hstart Hz | p ls s p' Hstart Hrun Hcode Hshut Hz
                          | p ls s p' e Hstart Hrun Hmain Hshut Hz];
        try discriminate Hz; [by eauto|].
      destruct (MainFacts.startup_returned _ _ _ Hstart) as (_ & _ & Hlg & _).
      destruct (MainFacts.shutdown_returns host p _ Hlg) as [p'' Hshut']. congruence.
    + intros (p & e & Hstart). apply (exits_startup_panic flags host p e Hstart).
  - intros Hexit.
    inversion Hexit as [p e Hstart Hz | p ls s p' Hstart Hrun Hcode Hshut Hz
                        | p ls s p' e Hstart Hrun Hmain Hshut Hz];
      try discriminate Hz. eauto.
  - intros p e Hstart. split; [by eapply Hnot0|].
    revert Hstart. startup_cases flags host.
    all: intros E; try discriminate E; injection E as <- <-; cbn [trace].
    all: split; [intros Hin; in_trace Hin | intros t Hin; in_trace Hin].
  - startup_cases flags host.
    all: split; [intros (p & e & E); try discriminate E; eauto 6|].
    all: intros [[H1 H2]|[H1|[e H1]]];
         try discriminate H1; try discriminate H2; eauto.
  - intros p ls s Hstart Hrun.
    assert (Hinv : inv s) by eauto using LifecycleFacts.reachable_inv.
    split; [|split].
    + intros Hcode.
      assert (Hret : mainTask s = MainReturned).
      { unfold exit_code in Hcode. by destruct (mainTask s). }
      assert (Hzero : counter s = 0) by (apply (inv_released _ Hinv); by right).
      destruct (LifecycleFacts.drained _ Hinv Hzero) as [Hempty Hended].
      destruct (LifecycleFacts.run_history _ _ _ Hrun) as (_ & Hstopped & Hfailed & _ & Hclosed).
      destruct (run_main_history _ _ _ Hrun) as [Hwait Hreturn].
      split.
      { destruct (MainFacts.startup_returned _ _ _ Hstart) as (_ & _ & Hlg & _).
        destruct (MainFacts.shutdown_returns host p _ Hlg) as [p' Hshut].
        exact (exits_main_returns flags host p ls s p' Hstart Hrun Hcode Hshut). }
      split; [exact Hzero|]. split; [exact Hempty|]. split; [exact Hended|].
      split; [destruct Hwait as [Hinit|?]; [congruence | by destruct Hinit | done]|].
      split; [destruct (Hreturn Hret) as [Hinit|?]; [discriminate Hinit | done]|].
      split.
      * intros c Hin. destruct (run_accepted _ _ _ c Hrun Hin) as [Hlive|?]; [|done].
        rewrite Hempty in Hlive. set_solver.
      * intros Hnofatal.
        assert (Hacc : acceptor s = AcceptStopped).
        { destruct (acceptor s) eqn:Hacc; [done | done |].
          destruct (Hfailed eq_refl) as [Hinit|?];
            [discriminate Hinit | by destruct Hnofatal]. }
        pose proof (inv_stopped _ Hinv Hacc) as Hshut.
        split; [destruct (Hclosed Hshut) as [Hinit|?]; [discriminate Hinit | done]|].
        split; [destruct (Hstopped Hacc) as [Hinit|?]; [discriminate Hinit | done]|].
        exact Hshut.
    + intros Hnz.
      assert (Hmain : mainTask s <> MainReleased /\ mainTask s <> MainReturned).
      { split; intros Hm; apply Hnz, (inv_released _ Hinv); auto. }
      destruct Hmain as [Hm1 Hm2]. split.
      * unfold exit_code. by destruct (mainTask s).
      * unfold step, on_main_return. case_decide; [done|]. by destruct (mainTask s).
    + intros Hzero. exact (drained_exits s Hinv Hzero).
Qed.

(** C6 at the scenario: the run with two connections and the termination
    signal ends with status 0, drained; the start-up whose key file cannot
    be read ends with status 2 and never with 0. *)
Lemma exit_status_witness :
  main_startup (flags_ops false) (host_with files_all) boot = (proc_listening, Returned tt)
  /\ run (init proc_listening) (before_signal ++ SigTerm :: after_signal)%list = Some at_exit
  /\ exit_code at_exit = Some 0
  /\ exits (flags_ops false) (host_with files_all) 0
  /\ counter at_exit = 0 /\ live at_exit = ∅
  /\ (forall c, Accept c ∈ (before_signal ++ SigTerm :: after_signal)%list ->
        ConnDone c ∈ (before_signal ++ SigTerm :: after_signal)%list)
  /\ exits (flags_ops false) (host_with files_no_key) 2
  /\ ~ exits (flags_ops false) (host_with files_no_key) 0.
Proof.
  assert (H1 : main_startup (flags_ops false) (host_with files_all) boot
               = (proc_listening, Returned tt)) by (vm_compute; reflexivity).
  assert (H2 : run (init proc_listening) (before_signal ++ SigTerm :: after_signal)%list
               = Some at_exit) by (vm_compute; reflexivity).
  assert (H3 : exit_code at_exit = Some 0) by (vm_compute; reflexivity).
  assert (H4 : main_startup (flags_ops false) (host_with files_no_key) boot
               = (mkProc (Some (Log.mkLogger Log.Stderr "[ 4242] ")) 0 None
                         [EvListen "tcp4" "127.0.0.1:9443"; EvBuildConfig],
                  Panicked KeyMaterialError)) by (vm_compute; reflexivity).
  destruct (exit_status_zero_iff_clean_drain (flags_ops false) (host_with files_all))
    as (_ & _ & _ & _ & _ & Hrun).
  destruct (Hrun _ _ _ H1 H2) as (Hexit & _ & _).
  destruct (Hexit H3) as (Hzero & Hcount & Hlive & _ & _ & _ & Hdone & _).
  destruct (exit_status_zero_iff_clean_drain (flags_ops false) (host_with files_no_key))
    as (_ & Htwo & _ & Hfail & _).
  split; [exact H1|]. split; [exact H2|]. split; [exact H3|]. split; [exact Hzero|].
  split; [exact Hcount|]. split; [exact Hlive|]. split; [exact Hdone|].
  split; [apply Htwo; eauto | exact (proj1 (Hfail _ _ H4))].
Defined.

End ProcessFacts.
